(** * tus-example: the JWT check, the pre-create hook and the upload protocol

    A shallow embedding of [main.go] (the whole program of the repository)
    together with the parts of the Go standard library it calls, and of the
    resumable-upload protocol engine that the specification describes and
    that the program obtains from the tusd package.

    Go strings are byte sequences; they are modelled by [string] (a list of
    [ascii], one per byte).  Go maps are modelled by stdpp's [gmap]; a map
    that the program shares and updates in place lives in a store and is
    named by a reference. *)

From Stdlib Require Import ZArith Ascii String List Bool Lia.
From Stdlib.Strings Require Import Byte.
From stdpp Require Import base option gmap strings list fin_maps.

Local Open Scope string_scope.

(** ** Package [strings] of the Go standard library *)

Module strings.

(** [asciiSet]: the set of bytes of the cutset.  Go stores it as a 256-bit
    mask; only membership is observable. *)
Definition asciiSet := ascii → bool.

Definition makeASCIISet (chars : string) : asciiSet :=
  fun c => existsb (Ascii.eqb c) (list_ascii_of_string chars).

(** [for len(s) > 0 { if !as.contains(s[0]) { break }; s = s[1:] }] *)
Fixpoint trimLeftASCII (s : string) (as_ : asciiSet) : string :=
  match s with
  | EmptyString => EmptyString
  | String c s' => if as_ c then trimLeftASCII s' as_ else s
  end.

(** [strings.TrimLeft(s, cutset)]: [s] without the leading bytes contained
    in [cutset].  This is the path Go takes for a cutset of ASCII bytes
    (the only call of the program passes ["Bearer "]); a cutset with
    multi-byte runes is compared rune by rune in Go and is outside this
    model. *)
Definition TrimLeft (s cutset : string) : string :=
  if (s =? "") || (cutset =? "") then s
  else trimLeftASCII s (makeASCIISet cutset).

(** [strings.HasPrefix(s, prefix)] *)
Definition HasPrefix (s prefix : string) : bool := String.prefix prefix s.

(** [strings.TrimPrefix(s, prefix)] *)
Definition TrimPrefix (s prefix : string) : string :=
  if HasPrefix s prefix
  then String.substring (String.length prefix)
                        (String.length s - String.length prefix) s
  else s.

End strings.

(** ** Go's [error] values, as far as the program builds them *)

Inductive error : Type :=
| ErrNil                     (* nil *)
| Errorf (msg : string).     (* fmt.Errorf(msg) *)

#[global] Instance error_eq_dec : EqDecision error.
Proof. solve_decision. Defined.

(** ** Packages [net/url], [net/textproto] and [net/http] *)

Module url.

Record URL : Type := { Path : string; RawPath : string }.

End url.

Module http.

(** [http.Header], a [map[string][]string] keyed by canonical names. *)
Abbreviation MIMEHeader := (gmap string (list string)).

Definition between (lo hi : nat) (c : ascii) : bool :=
  (lo <=? nat_of_ascii c)%nat && (nat_of_ascii c <=? hi)%nat.

Definition isLower : ascii → bool := between 97 122.
Definition isUpper : ascii → bool := between 65 90.

(** The token bytes of RFC 7230. *)
Definition validHeaderFieldByte (c : ascii) : bool :=
  isLower c || isUpper c || between 48 57 c ||
  existsb (Ascii.eqb c)
    ["!"; "#"; "$"; "%"; "&"; "'"; "*"; "+"; "-"; "."; "^"; "_"; "`"; "|"; "~"]%char.

(** The loop of [canonicalMIMEHeaderKey]: the first letter and every letter
    after a hyphen in upper case, the other letters in lower case. *)
Fixpoint canonicalize (upper : bool) (s : string) : string :=
  match s with
  | EmptyString => EmptyString
  | String c s' =>
      let c' :=
        if upper && isLower c then ascii_of_nat (nat_of_ascii c - 32)
        else if negb upper && isUpper c then ascii_of_nat (nat_of_ascii c + 32)
        else c in
      String c' (canonicalize (Ascii.eqb c' "-") s')
  end.

(** [textproto.CanonicalMIMEHeaderKey]: a key with a byte that is not a
    token byte is returned unchanged. *)
Definition CanonicalMIMEHeaderKey (s : string) : string :=
  if forallb validHeaderFieldByte (list_ascii_of_string s)
  then canonicalize true s else s.

(** [Header.Get(key)]: the first value stored under the canonical form of
    [key], and the empty string when there is none. *)
Definition Get (h : MIMEHeader) (key : string) : string :=
  match h !! CanonicalMIMEHeaderKey key with
  | Some (v :: _) => v
  | _ => ""
  end.

Record Request : Type := {
  Method : string;
  URL : url.URL;
  Header : MIMEHeader;
  Body : list Byte.byte
}.

(** What a [ResponseWriter] has committed: the status line, once written. *)
Record ResponseWriter : Type := { status : option nat }.

Definition StatusUnauthorized : nat := 401.
Definition StatusNotFound : nat := 404.

(** [w.WriteHeader(code)]: the first call fixes the status; net/http ignores
    a later call as superfluous. *)
Definition WriteHeader (w : ResponseWriter) (code : nat) : ResponseWriter :=
  match status w with
  | Some _ => w
  | None => {| status := Some code |}
  end.

(** [ServeHTTP(w, r)] of a handler that owns a state of type [W]. *)
Definition Handler (W : Type) : Type :=
  ResponseWriter → Request → W → ResponseWriter * W.

Definition NotFound {W : Type} : Handler W :=
  fun w _ σ => (WriteHeader w StatusNotFound, σ).

(** [http.StripPrefix(prefix, h)] *)
Definition StripPrefix {W : Type} (prefix : string) (h : Handler W) : Handler W :=
  if prefix =? "" then h
  else fun w r σ =>
    let p := strings.TrimPrefix (url.Path (URL r)) prefix in
    let rp := strings.TrimPrefix (url.RawPath (URL r)) prefix in
    if (String.length p <? String.length (url.Path (URL r)))%nat &&
       ((url.RawPath (URL r) =? "") ||
        (String.length rp <? String.length (url.RawPath (URL r)))%nat)
    then h w {| Method := Method r;
                URL := {| url.Path := p; url.RawPath := rp |};
                Header := Header r;
                Body := Body r |} σ
    else NotFound w r σ.

End http.

(** ** The types of package [tusd] that [main.go] uses

    The fields of [FileInfo] are those of the [.info] record that the
    repository's README prints.  [MetaData] is a Go map, hence a reference:
    the hook event and the handler's own [FileInfo] name the same map. *)

Module tusd.

Definition loc := positive.

(** The maps reachable through [MetaData] references. *)
Abbreviation Heap := (gmap positive (gmap string string)).

Record FileInfo : Type := {
  ID : string;
  Size : Z;
  SizeIsDeferred : bool;
  Offset : Z;
  MetaData : loc;
  IsPartial : bool;
  IsFinal : bool;
  PartialUploads : list string;
  Storage : gmap string string
}.

Record HTTPRequestInfo : Type := {
  Method : string;
  URI : string;
  RemoteAddr : string;
  Header : http.MIMEHeader
}.

Record HookEvent : Type := {
  Upload : FileInfo;
  HTTPRequest : HTTPRequestInfo
}.

End tusd.

(** ** [main.go] *)

(** The [PreUploadCreateCallback] of the handler's configuration
    (lines 22-25):
    [hook.Upload.MetaData["filename"] = hook.HTTPRequest.Header.Get("filename")].
    The assignment updates the map the reference denotes, in place.  The
    result is [None] when the reference denotes no map of the store. *)
Definition PreUploadCreateCallback (hook : tusd.HookEvent) (h : tusd.Heap)
  : option (error * tusd.Heap) :=
  let l := tusd.MetaData (tusd.Upload hook) in
  match h !! l with
  | None => None
  | Some m =>
      let v := http.Get (tusd.Header (tusd.HTTPRequest hook)) "filename" in
      Some (ErrNil, <[l := <["filename" := v]> m]> h)
  end.

(** [checkJWT] (lines 54-60) *)
Definition checkJWT (authorizationHeader : string) : error :=
  let jwt := strings.TrimLeft authorizationHeader "Bearer " in
  if negb (jwt =? "TrueJWT") then Errorf "Access denied"
  else ErrNil.

Section main.

Context {W : Type}.

(** The handler returned by [tusd.NewHandler]; its state [W] holds the
    uploads. *)
Variable handler : http.Handler W.

(** Line 38.  (Line 39 discards the result of [handler.Middleware] and so
    has no effect.) *)
Definition customHandler : http.Handler W := http.StripPrefix "/files/" handler.

(** The [http.HandlerFunc] registered for ["/files/"] (lines 40-46). *)
Definition filesHandler : http.Handler W :=
  fun w req σ =>
    let err := checkJWT (http.Get (http.Header req) "Authorization") in
    let w := if decide (err ≠ ErrNil)
             then http.WriteHeader w http.StatusUnauthorized
             else w in
    customHandler w req σ.

End main.

(** *** The completion logger (lines 31-36) *)

(** The line feed that ends a printed line. *)
Definition LF : ascii := ascii_of_nat 10.

(** What [fmt.Printf("Upload %s finished\n", id)] writes. *)
Definition finishedLine (id : string) : string :=
  "Upload " ++ id ++ " finished" ++ String LF "".

(** One turn of the loop: an event is received from
    [handler.CompleteUploads] and its line is written to standard output,
    here the text written so far. *)
Definition printFinished (stdout : string) (event : tusd.HookEvent) : string :=
  stdout ++ finishedLine (tusd.ID (tusd.Upload event)).

(** The loop on the events that the channel delivers, in order.  The loop
    never ends; this is standard output once these events are received. *)
Definition completionLogger (events : list tusd.HookEvent) (stdout : string) : string :=
  foldl printFinished stdout events.

(** ** The resumable-upload protocol engine

    The program delegates uploads to tusd's handler, whose code is not part
    of the repository.  The engine below follows the specification's
    sections 3, 4 and 7. *)

Module Protocol.

Local Open Scope Z_scope.

(** Modelled from the spec: the error taxonomy of section 7 (the protocol
    engine itself is missing from the sources), with [InvalidOffset] of
    section 4.2. *)
Inductive Error : Type :=
| NotFound | OffsetMismatch | LengthExceeded | InvalidLength | AlreadySet
| Unauthorized | StorageUnavailable | Terminated | InvalidOffset.

#[global] Instance Error_eq_dec : EqDecision Error.
Proof. solve_decision. Defined.

(** The outcome of a fallible operation. *)
Inductive result (A : Type) : Type :=
| Ok (a : A)
| Err (e : Error).
Arguments Ok {A} a.
Arguments Err {A} e.

#[global] Instance result_ret : MRet result := fun _ a => Ok a.
#[global] Instance result_bind : MBind result :=
  fun _ _ k r => match r with Ok a => k a | Err e => Err e end.

(** Modelled from the spec: the Upload entity of section 3 (missing from the
    sources).  The id is the key under which the record is stored;
    [declaredLength = None] is a deferred length. *)
Record Upload : Type := {
  declaredLength : option Z;
  offset : Z;
  metadata : gmap string string
}.

(** Modelled from the spec: [completed] is derived, true iff the offset
    equals the declared length and the length is not deferred. *)
Definition completed (u : Upload) : bool :=
  match declaredLength u with
  | Some n => offset u =? n
  | None => false
  end.

Definition byteLength (bytes : list Byte.byte) : Z := Z.of_nat (List.length bytes).

(** *** Storage Backend (section 4.1) *)

Module StorageBackend.

Abbreviation Objects := (gmap N (list Byte.byte)).

(** Modelled from the spec: [createObject(id)], an empty object. *)
Definition createObject (id : N) (s : Objects) : Objects := <[id := []]> s.

(** Modelled from the spec: [length(id)]. *)
Definition length (id : N) (s : Objects) : result Z :=
  match s !! id with
  | Some bytes => Ok (byteLength bytes)
  | None => Err NotFound
  end.

(** Modelled from the spec: [writeAt(id, offset, bytes) -> newOffset],
    append-only, [OffsetMismatch] unless [offset] is the stored length.
    [io_ok] is the outcome of the backend's I/O; a failed write is surfaced
    as [StorageUnavailable] and, the write being transactional (section
    4.2), leaves no bytes behind. *)
Definition writeAt (io_ok : bool) (id : N) (off : Z) (bytes : list Byte.byte)
    (s : Objects) : result (Z * Objects) :=
  match s !! id with
  | None => Err NotFound
  | Some old =>
      if negb (off =? byteLength old) then Err OffsetMismatch
      else if negb io_ok then Err StorageUnavailable
      else Ok (off + byteLength bytes, <[id := (old ++ bytes)%list]> s)
  end.

(** Modelled from the spec: [readRange(id, start, end)]. *)
Definition readRange (id : N) (start stop : Z) (s : Objects)
  : result (list Byte.byte) :=
  match s !! id with
  | None => Err NotFound
  | Some bytes => Ok (take (Z.to_nat (stop - start)) (drop (Z.to_nat start) bytes))
  end.

(** Modelled from the spec: [delete(id)]. *)
Definition delete (id : N) (s : Objects) : Objects := base.delete id s.

End StorageBackend.

(** *** Upload Metadata Store (section 4.2) *)

Module MetadataStore.

(** Modelled from the spec: one record per id; ids are generated at
    creation and globally unique, here by a counter that never goes back. *)
Record t : Type := {
  records : gmap N Upload;
  next_id : N
}.

Definition empty : t := {| records := ∅; next_id := 0%N |}.

(** Modelled from the spec: [create(declaredLength, metadata) -> id]. *)
Definition create (len : option Z) (md : gmap string string) (ms : t) : N * t :=
  let id := next_id ms in
  (id, {| records := <[id := {| declaredLength := len; offset := 0; metadata := md |}]>
                       (records ms);
          next_id := N.succ id |}).

(** Modelled from the spec: [get(id) -> Upload | NotFound]. *)
Definition get (id : N) (ms : t) : result Upload :=
  match records ms !! id with
  | Some u => Ok u
  | None => Err NotFound
  end.

(** Modelled from the spec: [advanceOffset(id, newOffset)], [InvalidOffset]
    unless [newOffset >= currentOffset]. *)
Definition advanceOffset (id : N) (newOffset : Z) (ms : t) : result t :=
  u ← get id ms;
  if newOffset <? offset u then Err InvalidOffset
  else Ok {| records := <[id := {| declaredLength := declaredLength u;
                                   offset := newOffset;
                                   metadata := metadata u |}]> (records ms);
             next_id := next_id ms |}.

(** Modelled from the spec: fixing a deferred length (SetDeferredLength of
    section 4.3 needs it; section 4.2 does not list it). *)
Definition setLength (id : N) (n : Z) (ms : t) : result t :=
  u ← get id ms;
  Ok {| records := <[id := {| declaredLength := Some n;
                              offset := offset u;
                              metadata := metadata u |}]> (records ms);
        next_id := next_id ms |}.

(** Modelled from the spec: [delete(id)]. *)
Definition delete (id : N) (ms : t) : t :=
  {| records := base.delete id (records ms); next_id := next_id ms |}.

End MetadataStore.

(** *** Protocol State Machine (section 4.3) *)

(** Modelled from the spec: the state the machine works on, one metadata
    record and one byte object per upload id (section 6, persisted layout). *)
Record State : Type := {
  meta : MetadataStore.t;
  storage : StorageBackend.Objects
}.

(** Modelled from the spec: no upload has been created yet. *)
Definition init : State := {| meta := MetadataStore.empty; storage := ∅ |}.

(** Modelled from the spec: the declared length of a creation request, or
    the deferred marker. *)
Inductive LengthSpec : Type :=
| Deferred
| Declared (n : Z).

(** Modelled from the spec: the requests of section 4.3 with their inputs. *)
Inductive Op : Type :=
| Create (len : LengthSpec) (md : gmap string string)
| Append (id : N) (expectedOffset : Z) (payload : list Byte.byte)
| SetDeferredLength (id : N) (n : Z)
| Head (id : N)
| Terminate (id : N).

(** Modelled from the spec: what an accepted request answers. *)
Inductive Reply : Type :=
| Created (id : N)
| Appended (newOffset : Z) (complete : bool)
| LengthSet
| Status (off : Z) (len : option Z) (complete : bool)
| Removed.

(** Modelled from the spec: an append that would push the offset beyond the
    declared length is rejected. *)
Definition exceeds (u : Upload) (payload : list Byte.byte) : bool :=
  match declaredLength u with
  | Some n => n <? offset u + byteLength payload
  | None => false
  end.

(** Modelled from the spec: the transitions of section 4.3.  Validation
    comes first; Append then writes through the Storage Backend and
    advances the offset in the Metadata Store by the payload length. *)
Definition transition (io_ok : bool) (op : Op) (σ : State) : result (Reply * State) :=
  match op with
  | Create len md =>
      n ← match len with
          | Deferred => Ok None
          | Declared n => if n <? 0 then Err InvalidLength else Ok (Some n)
          end;
      let '(id, ms) := MetadataStore.create n md (meta σ) in
      Ok (Created id,
          {| meta := ms; storage := StorageBackend.createObject id (storage σ) |})
  | Append id expectedOffset payload =>
      u ← MetadataStore.get id (meta σ);
      if negb (expectedOffset =? offset u) then Err OffsetMismatch
      else if exceeds u payload then Err LengthExceeded
      else
        '(newOffset, st) ← StorageBackend.writeAt io_ok id expectedOffset payload (storage σ);
        ms ← MetadataStore.advanceOffset id newOffset (meta σ);
        Ok (Appended newOffset
              (match declaredLength u with Some n => newOffset =? n | None => false end),
            {| meta := ms; storage := st |})
  | SetDeferredLength id n =>
      u ← MetadataStore.get id (meta σ);
      match declaredLength u with
      | Some _ => Err AlreadySet
      | None =>
          (* section 3: the offset never exceeds a known length *)
          if n <? offset u then Err InvalidLength
          else ms ← MetadataStore.setLength id n (meta σ);
               Ok (LengthSet, {| meta := ms; storage := storage σ |})
      end
  | Head id =>
      u ← MetadataStore.get id (meta σ);
      Ok (Status (offset u) (declaredLength u) (completed u), σ)
  | Terminate id =>
      Ok (Removed,
          {| meta := MetadataStore.delete id (meta σ);
             storage := StorageBackend.delete id (storage σ) |})
  end.

(** Modelled from the spec: one request against the engine.  The byte write
    and the offset advance are visible together or not at all (section
    4.2): a rejected request leaves the state as it was. *)
Definition step (io_ok : bool) (op : Op) (σ : State) : result Reply * State :=
  match transition io_ok op σ with
  | Ok (r, σ') => (Ok r, σ')
  | Err e => (Err e, σ)
  end.

(** The state after a sequence of requests, each with the outcome of its
    storage I/O. *)
Definition run (trace : list (bool * Op)) (σ : State) : State :=
  foldl (fun σ '(io_ok, op) => snd (step io_ok op σ)) σ trace.

(** The operations other than Terminate that address upload [id]. *)
Definition addresses (id : N) (op : Op) : bool :=
  match op with
  | Append id' _ _ | SetDeferredLength id' _ | Head id' => bool_decide (id' = id)
  | Create _ _ | Terminate _ => false
  end.

(** The stored byte length and the recorded offset of upload [id]. *)
Definition storedLength (σ : State) (id : N) : option Z :=
  byteLength <$> storage σ !! id.

Definition recordedOffset (σ : State) (id : N) : option Z :=
  offset <$> MetadataStore.records (meta σ) !! id.

(** *** The wire surface (section 6) *)








End Protocol.

Import Protocol.

(** ** Predicates and sample inputs used by the statements below *)

(** The bytes of the cutset ["Bearer "]. *)
Definition bearer_cutset : list ascii :=
  ["B"; "e"; "a"; "r"; " "]%char.

(** [strip_of cs s t]: [s] is [t] preceded by bytes that all belong to [cs]. *)
Fixpoint strip_of (cs : list ascii) (s t : string) : Prop :=
  s = t ∨
  match s with
  | EmptyString => False
  | String c s' => In c cs ∧ strip_of cs s' t
  end.

(** First byte of a string, if any. *)
Definition head_byte (s : string) : option ascii :=
  match s with EmptyString => None | String c _ => Some c end.

(** The cross-entity invariant of section 3: for every id, the stored
    object and the metadata record exist together and the stored byte
    length is the recorded offset. *)
Definition consistent (σ : State) : Prop :=
  ∀ id : N, storedLength σ id = recordedOffset σ id.

(** The ids in use have all been issued by the counter. *)
Definition issued (σ : State) : Prop :=
  ∀ id u, MetadataStore.records (meta σ) !! id = Some u →
          (id < MetadataStore.next_id (meta σ))%N.

(** Upload [id] was issued and is no longer stored. *)
Definition gone (id : N) (σ : State) : Prop :=
  MetadataStore.records (meta σ) !! id = None ∧
  (id < MetadataStore.next_id (meta σ))%N.

(** A creation request with the header [Filename: test.txt] whose client
    metadata already names the file. *)
Definition hook0 : tusd.HookEvent :=
  {| tusd.Upload :=
       {| tusd.ID := ""; tusd.Size := 24; tusd.SizeIsDeferred := false;
          tusd.Offset := 0; tusd.MetaData := 1%positive;
          tusd.IsPartial := false; tusd.IsFinal := false;
          tusd.PartialUploads := []; tusd.Storage := ∅ |};
     tusd.HTTPRequest :=
       {| tusd.Method := "POST"; tusd.URI := "/files/"; tusd.RemoteAddr := "";
          tusd.Header := {[ "Filename" := ["test.txt"] ]} |} |}.

Definition client_metadata : gmap string string :=
  {[ "filename" := "client.bin"; "owner" := "alice" ]}.

Definition heap0 : tusd.Heap := {[ 1%positive := client_metadata ]}.


(** Ten bytes of payload. *)
Definition ten_bytes : list Byte.byte := replicate 10 Byte.x61.

(** An upload of declared length 24 that has received ten bytes. *)
Definition ten_of_24 : State :=
  run [(true, Create (Declared 24) ∅); (true, Append 0 0 ten_bytes)] init.



(** All bytes of [p] belong to the cutset ["Bearer "]. *)
Definition in_cutset (p : string) : Prop :=
  Forall (fun c => In c bearer_cutset) (list_ascii_of_string p).

(** A handler that, like every user of a [ResponseWriter], cannot change a
    status line that is already written. *)
Definition keeps_status {W : Type} (handler : http.Handler W) : Prop :=
  ∀ w r σ c, http.status w = Some c →
             http.status (fst (handler w r σ)) = Some c.

(** A handler that answers 200 and has no state. *)
Definition okHandler : http.Handler unit :=
  fun w _ σ => (http.WriteHeader w 200, σ).

(** [s] holds no line feed. *)
Definition no_LF (s : string) : Prop := ¬ In LF (list_ascii_of_string s).

(** The ids of a sequence of events. *)
Definition eventIDs (events : list tusd.HookEvent) : list string :=
  map (fun e => tusd.ID (tusd.Upload e)) events.

(** A hook event for upload [id] whose metadata map is at [l] and whose
    request carries the headers [hdr]. *)
Definition hookFor (id : string) (l : tusd.loc) (hdr : http.MIMEHeader) : tusd.HookEvent :=
  {| tusd.Upload :=
       {| tusd.ID := id; tusd.Size := 24; tusd.SizeIsDeferred := false;
          tusd.Offset := 0; tusd.MetaData := l;
          tusd.IsPartial := false; tusd.IsFinal := false;
          tusd.PartialUploads := []; tusd.Storage := ∅ |};
     tusd.HTTPRequest :=
       {| tusd.Method := "POST"; tusd.URI := "/files/"; tusd.RemoteAddr := "";
          tusd.Header := hdr |} |}.

(** A request for [path] with the Authorization header [auth]. *)
Definition requestFor (path auth : string) : http.Request :=
  {| http.Method := "HEAD";
     http.URL := {| url.Path := path; url.RawPath := "" |};
     http.Header := {[ "Authorization" := [auth] ]};
     http.Body := [] |}.

(** The lines printed for a sequence of upload ids, one after the other. *)
Definition finishedLines (ids : list string) : string :=
  foldr (fun id rest => finishedLine id ++ rest) "" ids.

(** * Properties *)

(** ** [strings.TrimLeft] and [checkJWT] *)

Section TrimLeft_facts.

Lemma makeASCIISet_Bearer c :
  strings.makeASCIISet "Bearer " c = true ↔ In c bearer_cutset.
Proof.
  unfold strings.makeASCIISet, bearer_cutset. rewrite existsb_exists. simpl.
  split.
  - intros (x & Hx & He). apply Ascii.eqb_eq in He. subst x.
    intuition (subst; auto 10).
  - intros H. exists c. split; [|apply Ascii.eqb_refl].
    intuition (subst; auto 10).
Qed.

Lemma TrimLeft_unfold s cutset :
  cutset ≠ "" →
  strings.TrimLeft s cutset = strings.trimLeftASCII s (strings.makeASCIISet cutset).
Proof.
  intros Hc. unfold strings.TrimLeft.
  destruct (String.eqb_spec s "") as [->|_]; [reflexivity|].
  destruct (String.eqb_spec cutset "") as [->|_]; [contradiction|reflexivity].
Qed.

Lemma trimLeftASCII_strip s :
  strip_of bearer_cutset s
    (strings.trimLeftASCII s (strings.makeASCIISet "Bearer ")).
Proof.
  induction s as [|c s IH]; simpl.
  - now left.
  - destruct (strings.makeASCIISet "Bearer " c) eqn:E.
    + right. split; [now apply makeASCIISet_Bearer|exact IH].
    + now left.
Qed.

Lemma trimLeftASCII_head s c :
  head_byte (strings.trimLeftASCII s (strings.makeASCIISet "Bearer ")) = Some c →
  ¬ In c bearer_cutset.
Proof.
  induction s as [|d s IH]; simpl; [discriminate|].
  destruct (strings.makeASCIISet "Bearer " d) eqn:E; [exact IH|].
  simpl. intros [= <-] Hin. apply makeASCIISet_Bearer in Hin. congruence.
Qed.

End TrimLeft_facts.

(** C2.  [strings.TrimLeft(h, "Bearer ")] trims by character set: for every
    header [h] the result is [h] without a leading run of bytes that all
    belong to {B, e, a, r, ' '}, and the result does not start with such a
    byte.  Consequently headers that do not begin with the literal prefix
    ["Bearer "], such as ["TrueJWT"] and ["rraeB TrueJWT"], are allowed by
    [checkJWT]. *)
Theorem checkJWT_trims_character_set :
  (∀ h : string,
      strip_of bearer_cutset h (strings.TrimLeft h "Bearer ") ∧
      (∀ c, head_byte (strings.TrimLeft h "Bearer ") = Some c →
            ¬ In c bearer_cutset)) ∧
  (strings.HasPrefix "TrueJWT" "Bearer " = false ∧
   checkJWT "TrueJWT" = ErrNil) ∧
  (strings.HasPrefix "rraeB TrueJWT" "Bearer " = false ∧
   checkJWT "rraeB TrueJWT" = ErrNil).
Proof.
  split; [|split; split; reflexivity].
  intros h. rewrite TrimLeft_unfold by discriminate.
  split; [apply trimLeftASCII_strip|apply trimLeftASCII_head].
Qed.

(** C9.  [checkJWT h] is nil exactly when [strings.TrimLeft(h, "Bearer ")]
    is ["TrueJWT"]; the empty header (a missing Authorization header) is
    denied and ["Bearer TrueJWT"] is allowed. *)
Theorem checkJWT_nil_iff :
  (∀ h : string,
      checkJWT h = ErrNil ↔ strings.TrimLeft h "Bearer " = "TrueJWT") ∧
  checkJWT "" = Errorf "Access denied" ∧
  checkJWT "Bearer TrueJWT" = ErrNil.
Proof.
  split; [|split; reflexivity].
  intros h. unfold checkJWT. cbv zeta.
  destruct (String.eqb_spec (strings.TrimLeft h "Bearer ") "TrueJWT") as [E|E];
    simpl; split; intros H; try done.
Qed.

(** ** The pre-create hook *)

Lemma Get_filename (hdr : http.MIMEHeader) :
  http.Get hdr "filename" =
  match hdr !! "Filename" with Some (v :: _) => v | _ => "" end.
Proof. reflexivity. Qed.

(** C10.  On every hook event (whose metadata reference denotes a map of
    the store) the callback returns nil and leaves that map with the key
    ["filename"] bound to [Header.Get("filename")]: the first value of the
    request header [Filename], the empty string when the header is absent,
    whatever the client had supplied under that key. *)
Theorem PreUploadCreateCallback_sets_filename
    (hook : tusd.HookEvent) (h : tusd.Heap) (m : gmap string string) :
  h !! tusd.MetaData (tusd.Upload hook) = Some m →
  let l := tusd.MetaData (tusd.Upload hook) in
  let hdr := tusd.Header (tusd.HTTPRequest hook) in
  let v := match hdr !! "Filename" with Some (x :: _) => x | _ => "" end in
  PreUploadCreateCallback hook h = Some (ErrNil, <[l := <["filename" := v]> m]> h) ∧
  (<[l := <["filename" := v]> m]> h !! l) ≫= (.!! "filename") = Some v ∧
  (hdr !! "Filename" = None → v = "").
Proof.
  intros Hm l hdr v. unfold PreUploadCreateCallback. cbv zeta. rewrite Hm.
  rewrite Get_filename. subst l hdr v. split; [reflexivity|]. split.
  - rewrite lookup_insert_eq. simpl. apply lookup_insert_eq.
  - intros Hnone. now rewrite Hnone.
Qed.

Lemma PreUploadCreateCallback_sets_filename_witness :
  heap0 !! tusd.MetaData (tusd.Upload hook0) = Some client_metadata ∧
  PreUploadCreateCallback hook0 heap0 =
    Some (ErrNil, <[1%positive := <["filename" := "test.txt"]> client_metadata]> heap0) ∧
  (<[1%positive := <["filename" := "test.txt"]> client_metadata]> heap0 !! 1%positive)
    ≫= (.!! "filename") = Some "test.txt".
Proof.
  split; [reflexivity|].
  destruct (PreUploadCreateCallback_sets_filename hook0 heap0 client_metadata
              eq_refl) as (H1 & H2 & _).
  split; [exact H1|exact H2].
Defined.

(** C6, as the spec states it, fails: the callback is not a pure function of
    the request.  After the call the store holds a different map under the
    reference that the hook event and its caller share. *)
Lemma PreUploadCreateCallback_mutates_shared_map :
  PreUploadCreateCallback hook0 heap0 =
    Some (ErrNil, {[ 1%positive := <["filename" := "test.txt"]> client_metadata ]}) ∧
  ({[ 1%positive := <["filename" := "test.txt"]> client_metadata ]} : tusd.Heap) ≠ heap0.
Proof.
  split; [reflexivity|].
  intros E.
  assert (Hl : (heap0 !! 1%positive) ≫= (.!! "filename") = Some "test.txt")
    by (rewrite <- E; reflexivity).
  vm_compute in Hl. discriminate Hl.
Qed.

(** C6, amended.  Whenever the callback returns, it returns nil and its only
    effect is the in-place update of the hook event's metadata map at the
    key ["filename"]: every other map of the store and every other key of
    that map are as before. *)
Theorem PreUploadCreateCallback_frame
    (hook : tusd.HookEvent) (h h' : tusd.Heap) (e : error) :
  PreUploadCreateCallback hook h = Some (e, h') →
  let l := tusd.MetaData (tusd.Upload hook) in
  e = ErrNil ∧
  (∃ m, h !! l = Some m ∧
        h' !! l = Some (<["filename" :=
                           http.Get (tusd.Header (tusd.HTTPRequest hook)) "filename"]> m)) ∧
  (∀ l', l' ≠ l → h' !! l' = h !! l') ∧
  (∀ m m' k, h !! l = Some m → h' !! l = Some m' → k ≠ "filename" →
             m' !! k = m !! k).
Proof.
  unfold PreUploadCreateCallback. cbv zeta. intros H.
  destruct (h !! tusd.MetaData (tusd.Upload hook)) as [m|] eqn:Hm; [|discriminate].
  injection H as <- <-. split; [reflexivity|]. split; [|split].
  - exists m. split; [reflexivity|]. apply lookup_insert_eq.
  - intros l' Hne. now apply lookup_insert_ne.
  - intros m0 m' k [= <-] Hm' Hk. rewrite lookup_insert_eq in Hm'.
    injection Hm' as <-. now apply lookup_insert_ne.
Qed.

Lemma PreUploadCreateCallback_frame_witness :
  PreUploadCreateCallback hook0 heap0 =
    Some (ErrNil, <[1%positive := <["filename" := "test.txt"]> client_metadata]> heap0) ∧
  ∀ m m' k, heap0 !! 1%positive = Some m →
            <[1%positive := <["filename" := "test.txt"]> client_metadata]> heap0
              !! 1%positive = Some m' →
            k ≠ "filename" → m' !! k = m !! k.
Proof.
  split; [reflexivity|].
  exact (proj2 (proj2 (proj2
    (PreUploadCreateCallback_frame hook0 heap0
       (<[1%positive := <["filename" := "test.txt"]> client_metadata]> heap0)
       ErrNil eq_refl)))).
Defined.

(** ** The HTTP front *)


(** ** The protocol engine *)

Ltac unfold_result :=
  unfold mbind, result_bind, mret, result_ret in *.

Section Engine.

Implicit Types (σ : State) (op : Op) (id : N) (io : bool).

Lemma get_Ok id ms u :
  MetadataStore.get id ms = Ok u ↔ MetadataStore.records ms !! id = Some u.
Proof.
  unfold MetadataStore.get. destruct (MetadataStore.records ms !! id); split; congruence.
Qed.

Lemma byteLength_app (a b : list Byte.byte) :
  byteLength (a ++ b) = (byteLength a + byteLength b)%Z.
Proof. unfold byteLength. rewrite length_app. lia. Qed.

(** What a successful Append did. *)
Lemma transition_Append io id expectedOffset payload σ r σ' :
  transition io (Append id expectedOffset payload) σ = Ok (r, σ') →
  ∃ u old,
    MetadataStore.records (meta σ) !! id = Some u ∧
    storage σ !! id = Some old ∧
    expectedOffset = offset u ∧ expectedOffset = byteLength old ∧
    io = true ∧ exceeds u payload = false ∧
    σ' = {| meta := {| MetadataStore.records :=
                         <[id := {| declaredLength := declaredLength u;
                                    offset := (offset u + byteLength payload)%Z;
                                    metadata := metadata u |}]>
                           (MetadataStore.records (meta σ));
                       MetadataStore.next_id := MetadataStore.next_id (meta σ) |};
            storage := <[id := (old ++ payload)%list]> (storage σ) |}.
Proof.
  simpl. unfold_result.
  destruct (MetadataStore.get id (meta σ)) as [u|] eqn:Hget; [|discriminate].
  apply get_Ok in Hget.
  destruct (Z.eqb_spec expectedOffset (offset u)) as [->|]; simpl; [|discriminate].
  destruct (exceeds u payload) eqn:Hex; [discriminate|].
  unfold StorageBackend.writeAt.
  destruct (storage σ !! id) as [old|] eqn:Hst; [|discriminate].
  destruct (Z.eqb_spec (offset u) (byteLength old)) as [Hlen|]; simpl; [|discriminate].
  destruct io; simpl; [|discriminate].
  unfold MetadataStore.advanceOffset. unfold_result.
  rewrite (proj2 (get_Ok _ _ _) Hget).
  destruct (Z.ltb_spec (offset u + byteLength payload) (offset u)); [discriminate|].
  intros [= <- <-]. exists u, old. repeat split; auto.
Qed.

Lemma init_consistent : consistent init.
Proof.
  intros id. unfold storedLength, recordedOffset. simpl.
  now rewrite !lookup_empty.
Qed.

Lemma transition_consistent io op σ r σ' :
  transition io op σ = Ok (r, σ') → consistent σ → consistent σ'.
Proof.
  intros Htr Hc id'. specialize (Hc id'). revert Hc.
  unfold storedLength, recordedOffset.
  destruct op as [len md|id off payload|id n|id|id].
  - (* Create *)
    simpl in Htr. unfold_result.
    destruct (match len with
              | Deferred => Ok None
              | Declared n => if (n <? 0)%Z then Err InvalidLength else Ok (Some n)
              end) as [n|]; [|discriminate].
    injection Htr as <- <-. simpl. unfold StorageBackend.createObject.
    rewrite !lookup_insert. case_decide; [reflexivity|auto].
  - (* Append *)
    apply transition_Append in Htr
      as (u & old & Hu & Hold & -> & Hlen & _ & _ & ->). simpl.
    rewrite !lookup_insert. case_decide; [|auto].
    intros _. simpl. rewrite byteLength_app. now rewrite Hlen.
  - (* SetDeferredLength *)
    simpl in Htr. unfold_result.
    destruct (MetadataStore.get id (meta σ)) as [u|] eqn:Hget; [|discriminate].
    destruct (declaredLength u); [discriminate|].
    destruct (n <? offset u)%Z; [discriminate|].
    unfold MetadataStore.setLength in Htr. unfold_result. rewrite Hget in Htr.
    injection Htr as <- <-. simpl. apply get_Ok in Hget.
    rewrite lookup_insert. case_decide; [subst; now rewrite Hget|auto].
  - (* Head *)
    simpl in Htr. unfold_result.
    destruct (MetadataStore.get id (meta σ)); [|discriminate].
    injection Htr as <- <-. auto.
  - (* Terminate *)
    simpl in Htr. injection Htr as <- <-. simpl.
    unfold StorageBackend.delete. rewrite !lookup_delete.
    case_decide; [reflexivity|auto].
Qed.

Lemma step_consistent io op σ : consistent σ → consistent (snd (step io op σ)).
Proof.
  intros Hc. unfold step.
  destruct (transition io op σ) as [[r σ']|e] eqn:Htr; simpl; [|exact Hc].
  eapply transition_consistent; eauto.
Qed.

Lemma run_invariant (P : State → Prop) :
  (∀ io op σ, P σ → P (snd (step io op σ))) →
  ∀ trace σ, P σ → P (run trace σ).
Proof.
  intros Hstep trace. induction trace as [|[io op] trace IH]; intros σ HP.
  - exact HP.
  - simpl. apply IH. now apply Hstep.
Qed.

(** A rejected request leaves the state as it was. *)
Lemma step_error_unchanged io op σ e :
  fst (step io op σ) = Err e → snd (step io op σ) = σ.
Proof.
  unfold step. destruct (transition io op σ) as [[r σ']|e']; simpl; [discriminate|auto].
Qed.

(** A failed storage write never advances the offset. *)
Lemma failed_write_unchanged id expectedOffset payload σ :
  snd (step false (Append id expectedOffset payload) σ) = σ.
Proof.
  unfold step.
  destruct (transition false (Append id expectedOffset payload) σ)
    as [[r σ']|e] eqn:Htr; [|reflexivity].
  apply transition_Append in Htr as (u & old & _ & _ & _ & _ & Hio & _).
  discriminate Hio.
Qed.

Lemma step_issued io op σ : issued σ → issued (snd (step io op σ)).
Proof.
  intros Hi. unfold step.
  destruct (transition io op σ) as [[r σ']|e] eqn:Htr; simpl; [|exact Hi].
  intros id' u'. specialize (Hi id').
  destruct op as [len md|id off payload|id n|id|id].
  - simpl in Htr. unfold_result.
    destruct (match len with
              | Deferred => Ok None
              | Declared n => if (n <? 0)%Z then Err InvalidLength else Ok (Some n)
              end) as [n|]; [|discriminate].
    injection Htr as <- <-. simpl. rewrite lookup_insert.
    case_decide; [intros _; subst; lia|]. intros Hrec. apply Hi in Hrec. lia.
  - apply transition_Append in Htr as (u & old & Hu & _ & _ & _ & _ & _ & ->).
    simpl. rewrite lookup_insert. case_decide; [subst; eauto|eauto].
  - simpl in Htr. unfold_result.
    destruct (MetadataStore.get id (meta σ)) as [u|] eqn:Hget; [|discriminate].
    destruct (declaredLength u); [discriminate|].
    destruct (n <? offset u)%Z; [discriminate|].
    unfold MetadataStore.setLength in Htr. unfold_result. rewrite Hget in Htr.
    injection Htr as <- <-. simpl. apply get_Ok in Hget.
    rewrite lookup_insert. case_decide; [subst; eauto|eauto].
  - simpl in Htr. unfold_result.
    destruct (MetadataStore.get id (meta σ)); [|discriminate].
    injection Htr as <- <-. eauto.
  - simpl in Htr. injection Htr as <- <-. simpl.
    rewrite lookup_delete. case_decide; [discriminate|eauto].
Qed.

Lemma init_issued : issued init.
Proof. intros id u. simpl. now rewrite lookup_empty. Qed.

(** An id that was issued and removed is never stored again. *)
Lemma step_gone id0 io op σ : gone id0 σ → gone id0 (snd (step io op σ)).
Proof.
  intros [Hnone Hlt]. unfold step, gone.
  destruct (transition io op σ) as [[r σ']|e] eqn:Htr; simpl; [|auto].
  destruct op as [len md|id off payload|id n|id|id].
  - simpl in Htr. unfold_result.
    destruct (match len with
              | Deferred => Ok None
              | Declared n => if (n <? 0)%Z then Err InvalidLength else Ok (Some n)
              end) as [n|]; [|discriminate].
    injection Htr as <- <-. simpl. split; [|lia].
    rewrite lookup_insert_ne; [exact Hnone|lia].
  - apply transition_Append in Htr as (u & old & Hu & _ & _ & _ & _ & _ & ->).
    simpl. split; [|exact Hlt].
    rewrite lookup_insert_ne; [exact Hnone|congruence].
  - simpl in Htr. unfold_result.
    destruct (MetadataStore.get id (meta σ)) as [u|] eqn:Hget; [|discriminate].
    destruct (declaredLength u); [discriminate|].
    destruct (n <? offset u)%Z; [discriminate|].
    unfold MetadataStore.setLength in Htr. unfold_result. rewrite Hget in Htr.
    injection Htr as <- <-. simpl. apply get_Ok in Hget. split; [|exact Hlt].
    rewrite lookup_insert_ne; [exact Hnone|congruence].
  - simpl in Htr. unfold_result.
    destruct (MetadataStore.get id (meta σ)); [|discriminate].
    injection Htr as <- <-. auto.
  - simpl in Htr. injection Htr as <- <-. simpl. split; [|exact Hlt].
    rewrite lookup_delete. case_decide; [reflexivity|exact Hnone].
Qed.

(** Every operation other than Terminate that addresses an id without a
    record is rejected with [NotFound]. *)
Lemma step_NotFound id io op σ :
  MetadataStore.records (meta σ) !! id = None →
  addresses id op = true →
  fst (step io op σ) = Err NotFound.
Proof.
  intros Hnone Hop. unfold step.
  destruct op as [len md|id' off payload|id' n|id'|id']; simpl in Hop;
    try discriminate; apply bool_decide_eq_true in Hop; subst id';
    simpl; unfold_result; unfold MetadataStore.get; rewrite Hnone; reflexivity.
Qed.

End Engine.

(** C3.  In every reachable state (the state after any sequence of requests,
    whatever the outcome of their storage I/O) and for every upload id, the
    byte length of the stored object equals the offset of the metadata
    record, both absent together; and the equality still holds after one
    more operation of any kind. *)
Theorem stored_length_equals_offset (trace : list (bool * Op)) (id : N) :
  storedLength (run trace init) id = recordedOffset (run trace init) id ∧
  ∀ (io : bool) (op : Op),
    storedLength (snd (step io op (run trace init))) id =
    recordedOffset (snd (step io op (run trace init))) id.
Proof.
  assert (Hc : consistent (run trace init)).
  { apply (run_invariant consistent); [apply step_consistent|apply init_consistent]. }
  split; [apply Hc|].
  intros io op. now apply step_consistent.
Qed.

(** C4.  An Append whose expected offset differs from the upload's current
    offset is rejected with [OffsetMismatch]; the recorded offset and the
    stored byte length are those before the call (the whole state is). *)
Theorem Append_offset_mismatch_rejected
    (io : bool) (σ : State) (id : N) (u : Upload)
    (expectedOffset : Z) (payload : list Byte.byte) :
  MetadataStore.records (meta σ) !! id = Some u →
  expectedOffset ≠ offset u →
  let '(r, σ') := step io (Append id expectedOffset payload) σ in
  r = Err OffsetMismatch ∧
  recordedOffset σ' id = Some (offset u) ∧
  storedLength σ' id = storedLength σ id ∧
  σ' = σ.
Proof.
  intros Hu Hne. unfold step. simpl. unfold_result.
  rewrite (proj2 (get_Ok id (meta σ) u) Hu).
  destruct (Z.eqb_spec expectedOffset (offset u)) as [E|_]; [contradiction|].
  simpl. repeat split. unfold recordedOffset. now rewrite Hu.
Qed.

Lemma Append_offset_mismatch_rejected_witness :
  MetadataStore.records (meta ten_of_24) !! 0%N =
    Some {| declaredLength := Some 24%Z; offset := 10; metadata := ∅ |} ∧
  (5 ≠ 10)%Z ∧
  step true (Append 0 5 ten_bytes) ten_of_24 = (Err OffsetMismatch, ten_of_24) ∧
  recordedOffset ten_of_24 0 = Some 10%Z.
Proof.
  split; [reflexivity|]. split; [lia|].
  pose proof (Append_offset_mismatch_rejected true ten_of_24 0
                {| declaredLength := Some 24%Z; offset := 10; metadata := ∅ |}
                5 ten_bytes eq_refl ltac:(simpl; lia)) as H.
  destruct (step true (Append 0 5 ten_bytes) ten_of_24) as [r σ'].
  destruct H as (-> & Hoff & _ & ->). split; [reflexivity|exact Hoff].
Defined.

(** C8.  Terminating a stored upload succeeds and deletes the metadata
    record and the storage object; a repeated Terminate succeeds and changes
    nothing; and from then on, whatever requests follow, every Append, Head
    and SetDeferredLength on that id is rejected with [NotFound]. *)
Theorem Terminate_deletes_for_good
    (trace : list (bool * Op)) (io : bool) (id : N) (u : Upload) :
  MetadataStore.records (meta (run trace init)) !! id = Some u →
  let σ1 := snd (step io (Terminate id) (run trace init)) in
  fst (step io (Terminate id) (run trace init)) = Ok Removed ∧
  MetadataStore.records (meta σ1) !! id = None ∧
  storage σ1 !! id = None ∧
  (∀ io', step io' (Terminate id) σ1 = (Ok Removed, σ1)) ∧
  (∀ (later : list (bool * Op)) (io' : bool) (op : Op),
      addresses id op = true →
      fst (step io' op (run later σ1)) = Err NotFound).
Proof.
  intros Hu σ1.
  assert (Hi : issued (run trace init)).
  { apply (run_invariant issued); [apply step_issued|apply init_issued]. }
  assert (Hgone : gone id σ1).
  { split; simpl; [apply lookup_delete_eq|]. exact (Hi _ _ Hu). }
  split; [reflexivity|]. split; [apply Hgone|].
  split; [apply lookup_delete_eq|]. split.
  - intros io'. subst σ1. unfold step. simpl.
    unfold MetadataStore.delete, StorageBackend.delete. simpl.
    now rewrite !delete_delete_eq.
  - intros later io' op Hop. apply (step_NotFound id); [|exact Hop].
    apply (run_invariant (gone id)); [intros; now apply step_gone|exact Hgone].
Qed.

Lemma Terminate_deletes_for_good_witness :
  MetadataStore.records (meta ten_of_24) !! 0%N =
    Some {| declaredLength := Some 24%Z; offset := 10; metadata := ∅ |} ∧
  fst (step true (Terminate 0) ten_of_24) = Ok Removed ∧
  fst (step true (Head 0)
         (run [(true, Create Deferred ∅); (true, Terminate 0)]
              (snd (step true (Terminate 0) ten_of_24)))) = Err NotFound.
Proof.
  split; [reflexivity|].
  destruct (Terminate_deletes_for_good
              [(true, Create (Declared 24) ∅); (true, Append 0 0 ten_bytes)]
              true 0 {| declaredLength := Some 24%Z; offset := 10; metadata := ∅ |}
              eq_refl) as (H1 & _ & _ & _ & H5).
  split; [exact H1|].
  exact (H5 [(true, Create Deferred ∅); (true, Terminate 0)] true (Head 0) eq_refl).
Defined.


(** ** Further properties of [checkJWT] *)

Section checkJWT_language.

Lemma checkJWT_ErrNil h :
  checkJWT h = ErrNil ↔ strings.TrimLeft h "Bearer " = "TrueJWT".
Proof.
  unfold checkJWT. cbv zeta.
  destruct (String.eqb_spec (strings.TrimLeft h "Bearer ") "TrueJWT");
    simpl; split; intros; done.
Qed.

Lemma strip_of_split cs s t :
  strip_of cs s t →
  ∃ p, s = p ++ t ∧ Forall (fun c => In c cs) (list_ascii_of_string p).
Proof.
  induction s as [|c s IH]; simpl.
  - intros [<-|[]]. exists "". split; [reflexivity|constructor].
  - intros [<-|[Hc Hs]].
    + exists "". split; [reflexivity|constructor].
    + destruct (IH Hs) as (p & -> & Hp). exists (String c p).
      split; [reflexivity|]. simpl. now constructor.
Qed.

Lemma trimLeftASCII_app p h :
  in_cutset p →
  strings.trimLeftASCII (p ++ h) (strings.makeASCIISet "Bearer ") =
  strings.trimLeftASCII h (strings.makeASCIISet "Bearer ").
Proof.
  unfold in_cutset. induction p as [|c p IH]; simpl; [reflexivity|].
  intros Hp. inversion Hp as [|? ? Hc Hp']; subst.
  apply makeASCIISet_Bearer in Hc. rewrite Hc. now apply IH.
Qed.

Lemma TrimLeft_app p h :
  in_cutset p →
  strings.TrimLeft (p ++ h) "Bearer " = strings.TrimLeft h "Bearer ".
Proof.
  intros Hp. rewrite !TrimLeft_unfold by discriminate.
  now apply trimLeftASCII_app.
Qed.

End checkJWT_language.

(** X1.  The headers that [checkJWT] allows are exactly the strings made of
    any number of bytes from {B, e, a, r, ' '} followed by ["TrueJWT"]:
    nothing may follow the token, and what precedes it need not be the
    word ["Bearer "]. *)
Theorem checkJWT_allows_exactly (h : string) :
  checkJWT h = ErrNil ↔ ∃ p, h = p ++ "TrueJWT" ∧ in_cutset p.
Proof.
  rewrite checkJWT_ErrNil. split.
  - intros Ht. apply strip_of_split. rewrite <- Ht.
    rewrite TrimLeft_unfold by discriminate. apply trimLeftASCII_strip.
  - intros (p & -> & Hp). rewrite TrimLeft_app by exact Hp. reflexivity.
Qed.

(** X2.  Leading bytes from {B, e, a, r, ' '} never change the verdict:
    with or without them, and however often the word ["Bearer "] is
    repeated, a header is allowed or denied alike. *)
Theorem checkJWT_ignores_leading_cutset (p h : string) :
  in_cutset p → checkJWT (p ++ h) = checkJWT h.
Proof.
  intros Hp. unfold checkJWT. cbv zeta. now rewrite TrimLeft_app.
Qed.

Lemma checkJWT_ignores_leading_cutset_witness :
  in_cutset "Bearer Bearer " ∧
  checkJWT ("Bearer Bearer " ++ "FalseJWT") = checkJWT "FalseJWT".
Proof.
  assert (Hp : in_cutset "Bearer Bearer ").
  { unfold in_cutset, bearer_cutset. simpl.
    repeat (constructor; [simpl; tauto|]). constructor. }
  split; [exact Hp|].
  exact (checkJWT_ignores_leading_cutset "Bearer Bearer " "FalseJWT" Hp).
Defined.


(** ** Further properties of the HTTP front *)

Section front.

Context {W : Type}.
Implicit Types (handler : http.Handler W) (w : http.ResponseWriter)
               (req : http.Request) (σ : W).

Lemma length_append (p s : string) :
  String.length (p ++ s) = String.length p + String.length s.
Proof. induction p as [|c p IH]; simpl; [reflexivity|now rewrite IH]. Qed.

Lemma prefix_append (p s : string) : String.prefix p (p ++ s) = true.
Proof.
  induction p as [|c p IH]; simpl; [now destruct s|].
  destruct (ascii_dec c c); [exact IH|congruence].
Qed.

Lemma substring_all (s : string) : String.substring 0 (String.length s) s = s.
Proof. induction s as [|c s IH]; simpl; [reflexivity|now rewrite IH]. Qed.

Lemma substring_append (p s : string) (n : nat) :
  String.substring (String.length p) n (p ++ s) = String.substring 0 n s.
Proof. induction p as [|c p IH]; simpl; [reflexivity|exact IH]. Qed.

(** [strings.TrimPrefix] undoes the concatenation with the prefix. *)
Lemma TrimPrefix_append (p s : string) : strings.TrimPrefix (p ++ s) p = s.
Proof.
  unfold strings.TrimPrefix, strings.HasPrefix. rewrite prefix_append.
  rewrite length_append.
  replace (String.length p + String.length s - String.length p)
    with (String.length s) by lia.
  rewrite substring_append. apply substring_all.
Qed.


Lemma WriteHeader_committed w c code :
  http.status w = Some c → http.WriteHeader w code = w.
Proof. unfold http.WriteHeader. now intros ->. Qed.

Lemma WriteHeader_fresh w code :
  http.status w = None → http.status (http.WriteHeader w code) = Some code.
Proof. unfold http.WriteHeader. now intros ->. Qed.

Lemma customHandler_unfold handler w req σ :
  customHandler handler w req σ =
  let p := strings.TrimPrefix (url.Path (http.URL req)) "/files/" in
  let rp := strings.TrimPrefix (url.RawPath (http.URL req)) "/files/" in
  if (String.length p <? String.length (url.Path (http.URL req)))%nat &&
     ((url.RawPath (http.URL req) =? "") ||
      (String.length rp <? String.length (url.RawPath (http.URL req)))%nat)
  then handler w {| http.Method := http.Method req;
                    http.URL := {| url.Path := p; url.RawPath := rp |};
                    http.Header := http.Header req;
                    http.Body := http.Body req |} σ
  else http.NotFound w req σ.
Proof. reflexivity. Qed.

Lemma customHandler_keeps_status handler :
  keeps_status handler → keeps_status (customHandler handler).
Proof.
  intros Hk w req σ c Hw. rewrite customHandler_unfold. cbv zeta.
  match goal with |- context [if ?b then _ else _] => destruct b end.
  - now apply Hk.
  - unfold http.NotFound. simpl. now rewrite (WriteHeader_committed w c).
Qed.

End front.

(** X4.  When [checkJWT] denies a request and nothing has been written yet,
    the response status is 401, whatever the protocol handler writes
    afterwards (a handler cannot change a status line already written). *)
Theorem denied_request_answered_401
    {W : Type} (handler : http.Handler W) (w : http.ResponseWriter)
    (req : http.Request) (σ : W) :
  keeps_status handler →
  checkJWT (http.Get (http.Header req) "Authorization") ≠ ErrNil →
  http.status w = None →
  http.status (fst (filesHandler handler w req σ)) = Some 401.
Proof.
  intros Hk Hdeny Hw. unfold filesHandler. cbv zeta.
  destruct (decide (checkJWT (http.Get (http.Header req) "Authorization") ≠ ErrNil))
    as [_|Hn]; [|contradiction].
  apply customHandler_keeps_status; [exact Hk|].
  now apply WriteHeader_fresh.
Qed.

Lemma denied_request_answered_401_witness :
  http.status
    (fst (filesHandler okHandler {| http.status := None |}
            (requestFor "/files/42" "Bearer FalseJWT") tt)) = Some 401.
Proof.
  apply denied_request_answered_401.
  - intros w r σ c Hw. unfold okHandler. simpl.
    unfold http.WriteHeader. now rewrite Hw.
  - vm_compute. discriminate.
  - reflexivity.
Defined.

(** X5.  A request that [checkJWT] allows and whose path is ["/files/"]
    followed by [rest] is handed to the protocol handler with the path
    [rest] and the same method, headers and body; the front writes nothing
    to the response itself. *)
Theorem allowed_request_reaches_handler
    {W : Type} (handler : http.Handler W) (w : http.ResponseWriter)
    (req : http.Request) (σ : W) (rest : string) :
  checkJWT (http.Get (http.Header req) "Authorization") = ErrNil →
  url.Path (http.URL req) = "/files/" ++ rest →
  url.RawPath (http.URL req) = "" →
  filesHandler handler w req σ =
  handler w {| http.Method := http.Method req;
               http.URL := {| url.Path := rest; url.RawPath := "" |};
               http.Header := http.Header req;
               http.Body := http.Body req |} σ.
Proof.
  intros Hok Hpath Hraw. unfold filesHandler. cbv zeta. rewrite Hok.
  destruct (decide (ErrNil ≠ ErrNil)) as [Hn|_]; [contradiction|].
  rewrite customHandler_unfold. cbv zeta. rewrite Hpath, Hraw.
  rewrite TrimPrefix_append.
  replace (String.length rest <? String.length ("/files/" ++ rest))%nat with true
    by (symmetry; apply Nat.ltb_lt; rewrite length_append; simpl; lia).
  reflexivity.
Qed.

Lemma allowed_request_reaches_handler_witness :
  filesHandler okHandler {| http.status := None |}
    (requestFor "/files/42" "Bearer TrueJWT") tt =
  okHandler {| http.status := None |}
    {| http.Method := "HEAD";
       http.URL := {| url.Path := "42"; url.RawPath := "" |};
       http.Header := {[ "Authorization" := ["Bearer TrueJWT"] ]};
       http.Body := [] |} tt.
Proof.
  exact (allowed_request_reaches_handler okHandler {| http.status := None |}
           (requestFor "/files/42" "Bearer TrueJWT") tt "42"
           eq_refl eq_refl eq_refl).
Defined.



(** ** Further properties of the pre-create hook *)

Section hook_store.

Implicit Types (hook : tusd.HookEvent) (h : tusd.Heap).

(** The callback returns exactly when the metadata reference denotes a map,
    and then with this store. *)
Lemma PreUploadCreateCallback_Some hook h e h' :
  PreUploadCreateCallback hook h = Some (e, h') ↔
  ∃ m, h !! tusd.MetaData (tusd.Upload hook) = Some m ∧ e = ErrNil ∧
       h' = <[tusd.MetaData (tusd.Upload hook) :=
                <["filename" :=
                   http.Get (tusd.Header (tusd.HTTPRequest hook)) "filename"]> m]> h.
Proof.
  unfold PreUploadCreateCallback. cbv zeta.
  destruct (h !! tusd.MetaData (tusd.Upload hook)) as [m|]; split.
  - intros [= <- <-]. eauto.
  - intros (m' & [= <-] & -> & ->). reflexivity.
  - discriminate.
  - intros (m' & Hm & _). discriminate.
Qed.

End hook_store.

(** X7.  When two hook events share their metadata map, the later call
    decides: running the callback for the second event after the first
    gives what running it for the second alone gives.  In particular a
    repeated call for one event changes nothing more. *)
Theorem PreUploadCreateCallback_last_call_wins
    (hook1 hook2 : tusd.HookEvent) (h h1 : tusd.Heap) (e1 : error) :
  tusd.MetaData (tusd.Upload hook1) = tusd.MetaData (tusd.Upload hook2) →
  PreUploadCreateCallback hook1 h = Some (e1, h1) →
  PreUploadCreateCallback hook2 h1 = PreUploadCreateCallback hook2 h ∧
  PreUploadCreateCallback hook1 h1 = Some (ErrNil, h1).
Proof.
  intros Hl H1. apply PreUploadCreateCallback_Some in H1 as (m & Hm & -> & ->).
  unfold PreUploadCreateCallback. cbv zeta. rewrite <- Hl.
  rewrite lookup_insert_eq, Hm. rewrite !insert_insert_eq. auto.
Qed.

Lemma PreUploadCreateCallback_last_call_wins_witness :
  PreUploadCreateCallback
    (hookFor "a" 1%positive {[ "Filename" := ["second.txt"] ]})
    (<[1%positive := <["filename" := "test.txt"]> client_metadata]> heap0) =
  PreUploadCreateCallback
    (hookFor "a" 1%positive {[ "Filename" := ["second.txt"] ]}) heap0.
Proof.
  exact (proj1 (PreUploadCreateCallback_last_call_wins hook0
                  (hookFor "a" 1%positive {[ "Filename" := ["second.txt"] ]})
                  heap0 _ ErrNil eq_refl eq_refl)).
Defined.

(** X8.  Callbacks for hook events with different metadata maps do not
    interfere: both orders succeed and leave the same store. *)
Theorem PreUploadCreateCallback_commutes
    (hook1 hook2 : tusd.HookEvent) (h h1 h2 : tusd.Heap) (e1 e2 : error) :
  tusd.MetaData (tusd.Upload hook1) ≠ tusd.MetaData (tusd.Upload hook2) →
  PreUploadCreateCallback hook1 h = Some (e1, h1) →
  PreUploadCreateCallback hook2 h = Some (e2, h2) →
  ∃ h', PreUploadCreateCallback hook2 h1 = Some (ErrNil, h') ∧
        PreUploadCreateCallback hook1 h2 = Some (ErrNil, h').
Proof.
  intros Hne H1 H2.
  apply PreUploadCreateCallback_Some in H1 as (m1 & Hm1 & -> & ->).
  apply PreUploadCreateCallback_Some in H2 as (m2 & Hm2 & -> & ->).
  eexists. split.
  - apply PreUploadCreateCallback_Some. exists m2.
    split; [now rewrite lookup_insert_ne|]. split; reflexivity.
  - apply PreUploadCreateCallback_Some. exists m1.
    split; [now rewrite lookup_insert_ne|]. split; [reflexivity|].
    now apply insert_insert_ne.
Qed.

Lemma PreUploadCreateCallback_commutes_witness :
  ∃ h',
    PreUploadCreateCallback
      (hookFor "b" 2%positive {[ "Filename" := ["b.txt"] ]})
      (<[1%positive := <["filename" := "a.txt"]> ∅]>
         {[ 1%positive := ∅; 2%positive := ∅ ]}) = Some (ErrNil, h') ∧
    PreUploadCreateCallback
      (hookFor "a" 1%positive {[ "Filename" := ["a.txt"] ]})
      (<[2%positive := <["filename" := "b.txt"]> ∅]>
         {[ 1%positive := ∅; 2%positive := ∅ ]}) = Some (ErrNil, h').
Proof.
  refine (PreUploadCreateCallback_commutes
           (hookFor "a" 1%positive {[ "Filename" := ["a.txt"] ]})
           (hookFor "b" 2%positive {[ "Filename" := ["b.txt"] ]})
           {[ 1%positive := ∅; 2%positive := ∅ ]} _ _ ErrNil ErrNil _ eq_refl eq_refl).
  simpl. discriminate.
Defined.

(** X9.  The callback neither adds a map to the store nor removes one, and
    the keys of the hook event's metadata map afterwards are the keys it
    had before together with ["filename"]: no entry of the client is
    lost. *)
Theorem PreUploadCreateCallback_key_sets
    (hook : tusd.HookEvent) (h h' : tusd.Heap) (e : error) :
  PreUploadCreateCallback hook h = Some (e, h') →
  dom h' = dom h ∧
  ∀ m m', h !! tusd.MetaData (tusd.Upload hook) = Some m →
          h' !! tusd.MetaData (tusd.Upload hook) = Some m' →
          dom m' = {[ "filename" ]} ∪ dom m.
Proof.
  intros H. apply PreUploadCreateCallback_Some in H as (m & Hm & -> & ->).
  split.
  - apply dom_insert_lookup_L. eauto.
  - intros m0 m' Hm0 Hm'. rewrite lookup_insert_eq in Hm'.
    injection Hm' as <-. rewrite Hm in Hm0. injection Hm0 as <-.
    apply dom_insert_L.
Qed.

Lemma PreUploadCreateCallback_key_sets_witness :
  dom (<[1%positive := <["filename" := "test.txt"]> client_metadata]> heap0)
    = dom heap0.
Proof.
  exact (proj1 (PreUploadCreateCallback_key_sets hook0 heap0 _ ErrNil eq_refl)).
Defined.

(** ** The completion logger *)

Section logger.

Lemma string_app_assoc (a b c : string) : (a ++ b) ++ c = a ++ (b ++ c).
Proof.
  induction a as [|x a IH]; [reflexivity|].
  change (String x ((a ++ b) ++ c) = String x (a ++ (b ++ c))). now rewrite IH.
Qed.

Lemma string_app_nil_r (a : string) : a ++ "" = a.
Proof.
  induction a as [|x a IH]; [reflexivity|].
  change (String x (a ++ "") = String x a). now rewrite IH.
Qed.

Lemma list_ascii_of_string_app (a b : string) :
  list_ascii_of_string (a ++ b) =
  (list_ascii_of_string a ++ list_ascii_of_string b)%list.
Proof.
  induction a as [|x a IH]; [reflexivity|].
  change (x :: list_ascii_of_string (a ++ b) =
          x :: (list_ascii_of_string a ++ list_ascii_of_string b)%list).
  now rewrite IH.
Qed.

Lemma string_app_inv_tail (a b t : string) : a ++ t = b ++ t → a = b.
Proof.
  intros H. apply (f_equal list_ascii_of_string) in H.
  rewrite !list_ascii_of_string_app in H. apply app_inv_tail in H.
  rewrite <- (string_of_list_ascii_of_string a),
          <- (string_of_list_ascii_of_string b). now rewrite H.
Qed.

(** Two texts that agree and whose first line feeds close [a] and [b]
    agree part by part. *)
Lemma split_at_LF (a b x y : string) :
  no_LF a → no_LF b →
  a ++ String LF x = b ++ String LF y → a = b ∧ x = y.
Proof.
  unfold no_LF. revert b. induction a as [|c a IH]; intros [|d b] Ha Hb; simpl.
  - intros [= ->]. auto.
  - intros [= <- _]. exfalso. apply Hb. now left.
  - intros [= -> _]. exfalso. apply Ha. now left.
  - intros [= -> H]. destruct (IH b) as [-> ->]; auto.
    + intros Hin. apply Ha. now right.
    + intros Hin. apply Hb. now right.
Qed.

Lemma completionLogger_lines events stdout :
  completionLogger events stdout = stdout ++ finishedLines (eventIDs events).
Proof.
  unfold completionLogger. revert stdout.
  induction events as [|e events IH]; intros stdout; simpl.
  - now rewrite string_app_nil_r.
  - rewrite IH. unfold printFinished. apply string_app_assoc.
Qed.

Lemma finishedLine_cons id rest :
  finishedLine id ++ rest =
  "Upload " ++ (id ++ " finished") ++ String LF rest.
Proof.
  unfold finishedLine. rewrite !string_app_assoc. reflexivity.
Qed.

Lemma no_LF_finished id : no_LF id → no_LF (id ++ " finished").
Proof.
  unfold no_LF. intros Hid. rewrite list_ascii_of_string_app, in_app_iff.
  intros [Hin|Hin]; [auto|]. simpl in Hin. unfold LF in Hin.
  repeat (destruct Hin as [Hin|Hin]; [discriminate Hin|]). exact Hin.
Qed.

Lemma finishedLines_inj ids1 ids2 :
  Forall no_LF ids1 → Forall no_LF ids2 →
  finishedLines ids1 = finishedLines ids2 → ids1 = ids2.
Proof.
  intros H1. revert ids2. induction H1 as [|id1 ids1 Hid1 _ IH];
    intros ids2 H2; destruct H2 as [|id2 ids2 Hid2 H2]; simpl.
  - reflexivity.
  - rewrite finishedLine_cons. discriminate.
  - rewrite finishedLine_cons. discriminate.
  - rewrite !finishedLine_cons. simpl. intros [= H].
    apply split_at_LF in H as [Hid Hrest]; try now apply no_LF_finished.
    apply string_app_inv_tail in Hid. subst id2.
    f_equal. now apply IH.
Qed.

End logger.

(** X10.  The logger only ever appends: after any sequence of completion
    events, standard output is what it was before followed by one line
    [Upload <id> finished] per event, in the order of their arrival. *)
Theorem completionLogger_appends_lines
    (events : list tusd.HookEvent) (stdout : string) :
  completionLogger events stdout = stdout ++ finishedLines (eventIDs events) ∧
  ∀ more, completionLogger (events ++ more) stdout =
          completionLogger events stdout ++ finishedLines (eventIDs more).
Proof.
  split; [apply completionLogger_lines|].
  intros more. unfold completionLogger. rewrite foldl_app.
  apply completionLogger_lines.
Qed.

(** X11.  The log tells which uploads finished: when no upload id holds a
    line feed, two sequences of events that print the same text carry the
    same ids in the same order. *)
Theorem completionLogger_injective (events1 events2 : list tusd.HookEvent) :
  Forall no_LF (eventIDs events1) →
  Forall no_LF (eventIDs events2) →
  completionLogger events1 "" = completionLogger events2 "" →
  eventIDs events1 = eventIDs events2.
Proof.
  intros H1 H2. rewrite !completionLogger_lines. simpl.
  now apply finishedLines_inj.
Qed.

Lemma completionLogger_injective_witness :
  completionLogger [hookFor "abc" 1%positive ∅; hookFor "0f" 2%positive ∅] "" =
  completionLogger [hookFor "abc" 3%positive {[ "Filename" := ["x"] ]};
                    hookFor "0f" 3%positive ∅] "" ∧
  eventIDs [hookFor "abc" 1%positive ∅; hookFor "0f" 2%positive ∅] =
  eventIDs [hookFor "abc" 3%positive {[ "Filename" := ["x"] ]};
            hookFor "0f" 3%positive ∅].
Proof.
  assert (Hids : Forall no_LF ["abc"; "0f"]).
  { repeat constructor; unfold no_LF, LF; simpl; intuition discriminate. }
  split; [reflexivity|].
  exact (completionLogger_injective
           [hookFor "abc" 1%positive ∅; hookFor "0f" 2%positive ∅]
           [hookFor "abc" 3%positive {[ "Filename" := ["x"] ]};
            hookFor "0f" 3%positive ∅] Hids Hids eq_refl).
Defined.
